(* ===== verification/_CoqProject ===== *)
-Q . S2P
Prelude.v
Layout.v
Header.v
ObjectRep.v
Codec.v
