(* ===== verification/Prelude.v ===== *)
(** * Tether protocol header (RFC 0001 v1.0): a verification development

    ** The program

    The repository's engineering content is one C++ header,
    [src/world/Plugins/KenshoBridge/Source/KenshoBridge/Public/TetherTypes.h]:
    - the namespace [TetherConstants] with [MagicObol = 0x4F424F4C],
      [FlagLamp = 0x01] and [FlagSync = 0x02] (lines 10-15);
    - [struct FTetherHeader] (lines 18-49), twelve members in declaration
      order: [uint32 Magic] (no default member initialiser), [uint16 FlowID],
      [uint8 Flags], [uint8 Reserved], [uint8 SenderID[6]],
      [uint8 TargetID[6]], [uint32 Tai64Nano], then five [uint64] members
      [TokenID], [GrantAmount], [NackToken], [Checksum] and [Tai64Sec], all
      but [Magic] defaulting to zero;
    - [#pragma pack(push, 8)] / [#pragma pack(pop)] around the struct
      (lines 17 and 50), and comments that fix the wire contract: 64 bytes,
      8-byte alignment, the byte ranges of the words.
    The struct is meant to be the wire image of the header: a producer fills
    it in and sends its bytes, a consumer views 64 received bytes as the
    struct.  The codec that the spec describes on top of it (encode, decode
    with typed errors, a pluggable checksum) has no code in the repository;
    it is modelled from the spec, on top of the struct's byte image.

    ** Files

    - [Prelude] (this file): unsigned integers of a fixed width as [Z]
      ([wrap], [fits], the notation [z fits_in n] in [tether_scope]); bytes
      as 8-bit [Z]s ([bytes_ok]); the little- and big-endian images of an
      integer ([le_bytes], [le_value], [be_bytes], [be_value]), proved
      against stdpp's [Z_to_little_endian]; byte ranges ([slice]); one-bit
      corruption of a buffer ([flip_bit]); the hint database [tether] and
      the rewrite database [tether_len].
    - [Layout]: [Module CLayout] is the compiler's placement rule for a
      struct under [#pragma pack(2^p)] (each member at the next multiple of
      [min (alignof member, 2^p)], the size rounded up to the struct's
      alignment), [place], [struct_size], [offsetof], for any pack value;
      [Module TetherLayout] instantiates it with [FTetherHeader_members], the
      members in declaration order.  [struct_size] and [struct_align_log]
      model what the compiler derives from lines 17-50, not code of their
      own.
    - [Header]: [Module TetherConstants]; [Module Header] holds the struct as
      the record [FTetherHeader] (scalar members as [Z] at their width, the
      arrays as byte lists), its type invariant [header_wf], the three ways
      to create one ([default_init] for [FTetherHeader h;], whose [Magic] is
      the indeterminate value the storage holds; [value_init] for
      [FTetherHeader{}]; [aggregate_init_magic] for [FTetherHeader{m}],
      which is [None] when [m] does not fit a [uint32], since a narrowing
      conversion in list-initialisation is ill-formed), its members by name
      ([member_name], the names of the [Layout] table),
      member assignment [h.X = v] with the C++ conversion to the member's
      width ([assign]), element writes [h.SenderID[i] = v] with the
      out-of-bounds case as [None] ([assign_elem]), and the flag tests.
    - [ObjectRep]: the object representation of the struct, the bytes a
      [memcpy] sends: [object_bytes e p pad h] places each member's bytes,
      in byte order [e], at the offsets [CLayout.place] computes under
      [#pragma pack(2^p)], with padding bytes holding [pad];
      [of_object_bytes e bs] views a 64-byte buffer as the struct (under the
      code's pack value 8), reading each member at its offset.  The
      buffer is a [uint8[64]] array, so [of_object_bytes] refuses a list of
      another length or holding a value that is not a byte: the two checks
      are the representation invariant of the array, not checks the code
      makes.
    - [Codec] (from the spec): [Integrity] is the pluggable checksum over
      the header minus its [Checksum] member, [DetectsFlips] the law that it
      notices a one-bit change; [encode] checks [Reserved] and [Tai64Nano]
      ([InvalidField]), fills in the checksum ([seal]) and returns the
      object bytes; [decode] refuses with [TruncatedHeader], [BadMagic],
      [ChecksumMismatch] and [InvalidTimestamp] in that order.  The byte
      order is a [Section] parameter.  [XorFold] is an instance of both
      classes, [example_header] the spec's example (used by the witnesses).

    ** What the theorems show (claims C1-C18)

    - Layout (C1-C3): under every pack value the members sit exactly at the
      offsets of the RFC table with no padding, [sizeof] is 64, every member
      is naturally aligned, and the struct is 8-byte aligned under the
      code's [pack(8)].  The pack value is therefore irrelevant to the
      layout, and the proofs say so by reducing placement under any pack to
      the packing-free [contiguous] placement ([CLayout.place_natural]).
    - Assignment in memory (C4, in [ObjectRep]): [h.m = v] keeps the
      header well-typed, writes the low [8 * sizeof] bits of [v] into the
      bytes [offsetof m .. offsetof m + sizeof m] of the object, and leaves
      every other byte of the object as it was, under every pack value; the
      member's width in [Header] is tied to its declared type in [Layout]
      ([ObjectRep.member_width]).
    - Header (C5-C7): an element write [h.SenderID[i] = v] within the
      array keeps the header well-typed, stores [v] modulo 256 and touches
      no other element or member, and one past the array is refused; a
      default-initialised header carries the magic only when its garbage
      equals [MagicObol], [FTetherHeader{}] never does; the flag tests read
      bits 0 and 1 and setting one flag leaves the other.
    - Object representation (C8-C11): for every pack value and padding
      content the object is the members' bytes end to end, 64 bytes; it
      reads back to the same header; every 64-byte buffer is the object of
      exactly one well-typed header and other lengths are refused; the
      magic's bytes are [4C 4F 42 4F] little-endian and [4F 42 4F 4C]
      big-endian.  C6 also shows [FTetherHeader{m}] carrying the magic for
      [m = MagicObol] and refused for an [m] that does not fit.
    - Codec (C12-C18): the spec's round trip, length and magic rejection
      (the latter as an equivalence, whatever the other 60 bytes, so a
      flip inside the magic gives [BadMagic]), checksum sensitivity for
      one-bit flips outside the magic and the checksum field (under
      [DetectsFlips]), the timestamp bound at 999,999,999, the encode
      errors, and all-or-nothing decoding.

    ** Bounds and choices

    No definition uses fuel: every function is structural on a list or a
    [nat].  Integers are [Z]: a member's width is kept by [header_wf] and
    by [wrap] on assignment; the byte image uses [Z.land]/[Z.shiftr] as C++
    code would.  The pack value is any power of two [2^p] ([#pragma pack]
    accepts no other), and alignments are powers of two.  The byte order is
    a parameter ([LittleEndian] for the x86/ARM targets of the engine, or
    the spec's recommended [BigEndian]).  Padding content is a parameter,
    so no theorem depends on what padding holds.

    ** Plan for extension

    In order: (1) an interface [Module Type] for the RFC wire format (field
    offsets and widths with their laws) that [TetherLayout] implements and
    the codec is proved against; (2) positional aggregate initialisation
    with any number of initialisers, brace elision included; (3) the
    relation between the two byte orders (each scalar member's bytes
    reversed); (4) the
    reserved flag bits (preserved by both directions) and the [Reserved]
    byte on decode, which the spec says is tolerated but flagged.

    ** Not modelled

    The checksum algorithm (unspecified anywhere: the codec is proved for
    every [Integrity] instance), the transport, the token authority and the
    clock (external collaborators), the meaning of [NackToken] (an open
    question of the spec), and [CoreMinimal.h] (the engine's integer
    types, taken as unsigned integers of their width). *)

From stdpp Require Export base list list_numbers.
From Stdlib Require Export ZArith Lia.

Declare Scope tether_scope.
Delimit Scope tether_scope with tether.
Open Scope Z_scope.

Create HintDb tether.
Create Rewrite HintDb tether_len.

(** ** Unsigned integers of a fixed width

    A C++ [uintN] holds a value of [[0, 2^N)]; converting any integer to it
    (assignment, initialisation) keeps the value modulo [2^N]
    ([conv.integral]). *)

Definition wrap (bits z : Z) : Z := z mod 2 ^ bits.

Definition fits (bits z : Z) : bool := (0 <=? z) && (z <? 2 ^ bits).

Notation "z 'fits_in' bits" := (fits bits z = true)
  (at level 70, no associativity) : tether_scope.
Open Scope tether_scope.

Lemma fits_spec bits z : z fits_in bits <-> 0 <= z < 2 ^ bits.
Proof. unfold fits. rewrite andb_true_iff, Z.leb_le, Z.ltb_lt. done. Qed.

Lemma wrap_fits bits z : 0 <= bits -> wrap bits z fits_in bits.
Proof.
  intros. apply fits_spec. apply Z.mod_pos_bound, Z.pow_pos_nonneg; lia.
Qed.

Lemma wrap_id bits z : z fits_in bits -> wrap bits z = z.
Proof. intros Hz%fits_spec. by apply Z.mod_small. Qed.

Lemma wrap_wrap bits z : 0 <= bits -> wrap bits (wrap bits z) = wrap bits z.
Proof. intros. apply wrap_id, wrap_fits. done. Qed.

(** ** Bytes: an [unsigned char] is an 8-bit integer *)

Definition byte_ok (b : Z) : bool := fits 8 b.
Definition bytes_ok (bs : list Z) : bool := forallb byte_ok bs.

Lemma bytes_ok_Forall bs :
  bytes_ok bs = true <-> Forall (fun b => 0 <= b < 2 ^ 8) bs.
Proof.
  unfold bytes_ok. rewrite forallb_forall, Forall_forall.
  setoid_rewrite <- list_elem_of_In. unfold byte_ok.
  setoid_rewrite fits_spec. done.
Qed.

Lemma bytes_ok_app bs1 bs2 :
  bytes_ok (bs1 ++ bs2) = bytes_ok bs1 && bytes_ok bs2.
Proof. apply forallb_app. Qed.

Lemma bytes_ok_concat bss : bytes_ok (concat bss) = forallb bytes_ok bss.
Proof. induction bss as [|bs bss IH]; simpl; [done|]. by rewrite bytes_ok_app, IH. Qed.

Lemma bytes_ok_rev bs : bytes_ok (rev bs) = bytes_ok bs.
Proof.
  apply Bool.eq_iff_eq_true. rewrite !bytes_ok_Forall.
  split; [intros H%Forall_rev; by rewrite rev_involutive in H|apply Forall_rev].
Qed.

(** ** Little- and big-endian images of an integer

    [le_bytes n z] is the object representation of the low [8 * n] bits of
    [z] on a little-endian machine: the byte [z & 0xFF] first, then the
    bytes of [z >> 8].  [le_value] reads it back. *)

Fixpoint le_bytes (n : nat) (z : Z) : list Z :=
  match n with
  | O => []
  | S n' => Z.land z 255 :: le_bytes n' (Z.shiftr z 8)
  end.

Fixpoint le_value (bs : list Z) : Z :=
  match bs with
  | [] => 0
  | b :: bs' => Z.lor b (Z.shiftl (le_value bs') 8)
  end.

Definition be_bytes (n : nat) (z : Z) : list Z := rev (le_bytes n z).
Definition be_value (bs : list Z) : Z := le_value (rev bs).

(** Both coincide with stdpp's [Z_to_little_endian] and
    [little_endian_to_Z] at 8-bit digits, whose lemmas we reuse. *)
Lemma le_bytes_stdpp n z : le_bytes n z = Z_to_little_endian (Z.of_nat n) 8 z.
Proof.
  revert z. induction n as [|n IH]; intros z; [done|].
  rewrite Nat2Z.inj_succ, Z_to_little_endian_succ by lia.
  simpl. rewrite IH. done.
Qed.

Lemma le_value_stdpp bs : le_value bs = little_endian_to_Z 8 bs.
Proof. induction bs as [|b bs IH]; simpl; [done|]. by rewrite IH. Qed.

Lemma length_le_bytes n z : length (le_bytes n z) = n.
Proof. revert z. induction n; intros; simpl; auto. Qed.

Lemma length_be_bytes n z : length (be_bytes n z) = n.
Proof. unfold be_bytes. by rewrite length_rev, length_le_bytes. Qed.

#[export] Hint Rewrite length_le_bytes length_be_bytes @length_app
  @length_rev @length_replicate : tether_len.

Lemma le_bytes_ok n z : bytes_ok (le_bytes n z) = true.
Proof.
  apply bytes_ok_Forall. rewrite le_bytes_stdpp.
  apply Z_to_little_endian_bound; lia.
Qed.

Lemma be_bytes_ok n z : bytes_ok (be_bytes n z) = true.
Proof. unfold be_bytes. rewrite bytes_ok_rev. apply le_bytes_ok. Qed.

#[export] Hint Resolve le_bytes_ok be_bytes_ok : tether.

Lemma le_value_le_bytes n z :
  le_value (le_bytes n z) = wrap (8 * Z.of_nat n) z.
Proof.
  rewrite le_value_stdpp, le_bytes_stdpp, little_endian_to_Z_to_little_endian
    by lia.
  unfold wrap. f_equal. f_equal. lia.
Qed.

Lemma le_bytes_le_value bs :
  bytes_ok bs = true -> le_bytes (length bs) (le_value bs) = bs.
Proof.
  intros Hok%bytes_ok_Forall.
  rewrite le_bytes_stdpp, le_value_stdpp. by apply Z_to_little_endian_to_Z.
Qed.

Lemma le_value_fits bs :
  bytes_ok bs = true -> le_value bs fits_in (8 * Z.of_nat (length bs)).
Proof.
  intros Hok%bytes_ok_Forall. apply fits_spec. rewrite le_value_stdpp.
  replace (8 * Z.of_nat (length bs)) with (Z.of_nat (length bs) * 8) by lia.
  by apply little_endian_to_Z_bound.
Qed.

Lemma be_value_be_bytes n z :
  be_value (be_bytes n z) = wrap (8 * Z.of_nat n) z.
Proof. unfold be_value, be_bytes. rewrite rev_involutive. apply le_value_le_bytes. Qed.

Lemma be_bytes_be_value bs :
  bytes_ok bs = true -> be_bytes (length bs) (be_value bs) = bs.
Proof.
  intros Hok. unfold be_bytes, be_value.
  rewrite <- length_rev, le_bytes_le_value, rev_involutive; [done|].
  by rewrite bytes_ok_rev.
Qed.

Lemma be_value_fits bs :
  bytes_ok bs = true -> be_value bs fits_in (8 * Z.of_nat (length bs)).
Proof.
  intros Hok. unfold be_value. rewrite <- length_rev.
  apply le_value_fits. by rewrite bytes_ok_rev.
Qed.

(** ** Byte ranges of a buffer *)

Definition slice (off len : nat) (bs : list Z) : list Z := take len (drop off bs).

Lemma slice_app_mid (pre mid post : list Z) :
  slice (length pre) (length mid) (pre ++ mid ++ post) = mid.
Proof.
  unfold slice. rewrite drop_app_length, take_app_length. done.
Qed.

Ltac fits_solve :=
  repeat match goal with
         | H : fits _ _ = true |- _ => apply fits_spec in H
         end;
  try apply fits_spec; cbn [Z.pow Z.pow_pos Pos.iter] in *; lia.

(** ** Single-bit masks *)

(** [x & (1 << k)] is the bit [k] of [x] in place. *)
Lemma land_pow2 x k :
  0 <= k -> Z.land x (2 ^ k) = if Z.testbit x k then 2 ^ k else 0.
Proof.
  intros Hk. apply Z.bits_inj_iff. intros i.
  rewrite Z.land_spec, Z.pow2_bits_eqb by done.
  destruct (Z.eqb_spec k i) as [->|Hne].
  - destruct (Z.testbit x i); rewrite ?Z.pow2_bits_true, ?Z.bits_0; done.
  - rewrite andb_false_r.
    destruct (Z.testbit x k); rewrite ?Z.pow2_bits_eqb, ?Z.bits_0 by done; [|done].
    symmetry. by apply Z.eqb_neq.
Qed.

Lemma land_pow2_nonzero x k :
  0 <= k -> negb (Z.land x (2 ^ k) =? 0) = Z.testbit x k.
Proof.
  intros Hk. rewrite land_pow2 by done.
  destruct (Z.testbit x k); [|done].
  pose proof (Z.pow_pos_nonneg 2 k ltac:(lia) Hk). destruct (Z.eqb_spec (2 ^ k) 0); [lia|done].
Qed.

(** ** Flipping one bit of one byte of a buffer *)

Definition flip_bit (i : nat) (k : Z) (bs : list Z) : list Z :=
  alter (fun b => Z.lxor b (2 ^ k)) i bs.

Lemma lxor_pow2_byte b k :
  b fits_in 8 -> 0 <= k < 8 -> Z.lxor b (2 ^ k) fits_in 8.
Proof.
  intros Hb%fits_spec Hk. apply fits_spec.
  assert (Hp : 0 < 2 ^ k) by (apply Z.pow_pos_nonneg; lia).
  assert (Hnn : 0 <= Z.lxor b (2 ^ k)) by (apply Z.lxor_nonneg; lia).
  split; [done|].
  destruct (Z.eq_dec (Z.lxor b (2 ^ k)) 0) as [->|Hne]; [lia|].
  apply Z.log2_lt_pow2; [lia|].
  pose proof (Z.log2_lxor b (2 ^ k) ltac:(lia) ltac:(lia)) as Hl.
  rewrite Z.log2_pow2 in Hl by lia.
  assert (Z.log2 b < 8).
  { destruct (Z.eq_dec b 0) as [->|Hb0]; [done|]. apply Z.log2_lt_pow2; lia. }
  lia.
Qed.

Lemma length_flip_bit i k bs : length (flip_bit i k bs) = length bs.
Proof. apply length_alter. Qed.

Lemma flip_bit_ok i k bs :
  0 <= k < 8 -> bytes_ok bs = true -> bytes_ok (flip_bit i k bs) = true.
Proof.
  intros Hk Hok%bytes_ok_Forall. apply bytes_ok_Forall. unfold flip_bit.
  apply Forall_alter; [done|]. intros b _ Hb.
  apply fits_spec, lxor_pow2_byte; [by apply fits_spec|done].
Qed.

#[export] Hint Rewrite length_flip_bit : tether_len.

Lemma length_slice off n bs :
  (off + n <= length bs)%nat -> length (slice off n bs) = n.
Proof. intros. unfold slice. rewrite length_take, length_drop. lia. Qed.

Lemma slice_ok off n bs : bytes_ok bs = true -> bytes_ok (slice off n bs) = true.
Proof.
  rewrite !bytes_ok_Forall. intros. unfold slice. by apply Forall_take, Forall_drop.
Qed.

(** A flip outside a byte range leaves the range as it was. *)
Lemma slice_flip_outside off n i k bs :
  (i < off \/ off + n <= i)%nat -> slice off n (flip_bit i k bs) = slice off n bs.
Proof.
  unfold slice, flip_bit. intros [Hi|Hi].
  - by rewrite drop_alter_lt.
  - rewrite drop_alter_ge, take_alter_ge by lia. done.
Qed.

(** ** Blocks laid end to end

    A buffer made of blocks [L] ([concat L]): block [k] starts after the
    blocks before it, and replacing it by a block of the same length
    leaves every byte outside it as it was. *)

Definition block_offset (L : list (list Z)) (k : nat) : nat :=
  sum_list (map length (take k L)).

Lemma slice_concat L k u :
  L !! k = Some u -> slice (block_offset L k) (length u) (concat L) = u.
Proof.
  unfold block_offset. revert k. induction L as [|x L IH]; intros [|k] Hk; simpl in *;
    try discriminate.
  - injection Hk as ->. unfold slice. by rewrite drop_0, take_app_length.
  - unfold slice in *. rewrite drop_app_add. by apply IH.
Qed.

Lemma concat_insert_outside L k u w j :
  L !! k = Some u -> length w = length u ->
  (j < block_offset L k \/ block_offset L k + length u <= j)%nat ->
  concat (<[k := w]> L) !! j = concat L !! j.
Proof.
  unfold block_offset. revert k j. induction L as [|x L IH]; intros [|k] j Hk Hw Hj;
    simpl in *; try discriminate.
  - injection Hk as ->. destruct Hj as [Hj|Hj]; [lia|].
    rewrite !lookup_app_r by lia. by rewrite Hw.
  - destruct (decide (j < length x)%nat) as [Hx|Hx].
    + by rewrite !lookup_app_l by done.
    + rewrite !lookup_app_r by lia. apply IH; [done|done|lia].
Qed.
