(* ===== verification/Layout.v ===== *)
(** * Layout: the memory layout of [FTetherHeader] under [#pragma pack]

    [TetherTypes.h] wraps [struct FTetherHeader] in
    [#pragma pack(push, 8)] / [#pragma pack(pop)].  This file models the
    layout rule a C++ compiler applies to such a struct: each member is
    placed at the next offset that is a multiple of the smaller of its
    natural alignment and the pack value, the struct's alignment is the
    largest member alignment (capped by the pack value), and the size is
    the end of the last member rounded up to that alignment.

    The generic part ([Module CLayout]) holds the scalar types the header
    uses, their sizes and alignments, and the placement algorithm.  The
    [Module TetherLayout] part instantiates it with the members of
    [FTetherHeader] in declaration order and proves that the resulting
    offsets are the ones of the RFC table, for every pack value. *)

From S2P Require Import Prelude.
From stdpp Require Import strings.

Module CLayout.

(** The member types of the header: [uint8/16/32/64] and arrays. *)
Inductive ctype :=
| TUInt8
| TUInt16
| TUInt32
| TUInt64
| TArray (elem : ctype) (n : nat).

Fixpoint sizeof (t : ctype) : nat :=
  match t with
  | TUInt8 => 1
  | TUInt16 => 2
  | TUInt32 => 4
  | TUInt64 => 8
  | TArray e n => n * sizeof e
  end.

(** Alignments are powers of two: [align_log t] is log2 of the natural
    alignment of [t]; an array is aligned like its elements. *)
Fixpoint align_log (t : ctype) : nat :=
  match t with
  | TUInt8 => 0
  | TUInt16 => 1
  | TUInt32 => 2
  | TUInt64 => 3
  | TArray e _ => align_log e
  end.

Record member := Member { mname : string; mtype : ctype }.

(** [#pragma pack(n)] accepts only powers of two; it is modelled by its
    log2 [p].  A member's effective alignment is [min (natural, n)]. *)
Definition member_align_log (p : nat) (t : ctype) : nat :=
  Nat.min (align_log t) p.

Definition padding (off a : nat) : nat := (a - off mod a) mod a.
Definition align_up (off a : nat) : nat := off + padding off a.

(** Offsets of the members, in declaration order, starting at [off]. *)
Fixpoint place (p off : nat) (ms : list member) : list (string * nat) :=
  match ms with
  | [] => []
  | m :: ms' =>
      let o := align_up off (2 ^ member_align_log p (mtype m)) in
      (mname m, o) :: place p (o + sizeof (mtype m)) ms'
  end.

(** The offset one past the last member. *)
Fixpoint end_offset (p off : nat) (ms : list member) : nat :=
  match ms with
  | [] => off
  | m :: ms' =>
      end_offset p (align_up off (2 ^ member_align_log p (mtype m))
                    + sizeof (mtype m)) ms'
  end.

Definition struct_align_log (p : nat) (ms : list member) : nat :=
  foldr Nat.max 0 (map (fun m => member_align_log p (mtype m)) ms).

Definition struct_size (p : nat) (ms : list member) : nat :=
  align_up (end_offset p 0 ms) (2 ^ struct_align_log p ms).

Fixpoint assoc (name : string) (l : list (string * nat)) : option nat :=
  match l with
  | [] => None
  | (n, o) :: l' => if String.eqb n name then Some o else assoc name l'
  end.

(** [offsetof(FTetherHeader, name)]. *)
Definition offsetof (p : nat) (ms : list member) (name : string) : option nat :=
  assoc name (place p 0 ms).

(** The packing-independent reading: members laid end to end, and the
    check that each one then sits at a multiple of its natural
    alignment. *)
Fixpoint contiguous (off : nat) (ms : list member) : list (string * nat) :=
  match ms with
  | [] => []
  | m :: ms' => (mname m, off) :: contiguous (off + sizeof (mtype m)) ms'
  end.

Fixpoint naturally_aligned (off : nat) (ms : list member) : bool :=
  match ms with
  | [] => true
  | m :: ms' =>
      (off mod 2 ^ align_log (mtype m) =? 0)%nat
      && naturally_aligned (off + sizeof (mtype m)) ms'
  end.

Definition total_size (ms : list member) : nat :=
  sum_list (map (fun m => sizeof (mtype m)) ms).

(** ** Lemmas on the placement algorithm *)

Lemma pow2_divide_min a p : Nat.divide (2 ^ Nat.min a p) (2 ^ a).
Proof.
  exists (2 ^ (a - Nat.min a p)). rewrite <- Nat.pow_add_r. f_equal. lia.
Qed.

Lemma align_up_aligned off a p :
  (off mod 2 ^ a = 0)%nat -> align_up off (2 ^ Nat.min a p) = off.
Proof.
  intros Hmod. unfold align_up, padding.
  assert (Hpos : (2 ^ Nat.min a p <> 0)%nat) by (apply Nat.pow_nonzero; lia).
  assert (Hm : (off mod 2 ^ Nat.min a p = 0)%nat).
  { apply Nat.Lcm0.mod_divide. eapply Nat.divide_trans; [apply pow2_divide_min|].
    by apply Nat.Lcm0.mod_divide. }
  rewrite Hm, Nat.sub_0_r, Nat.Div0.mod_same. lia.
Qed.

Lemma place_natural p off ms :
  naturally_aligned off ms = true -> place p off ms = contiguous off ms.
Proof.
  revert off. induction ms as [|m ms IH]; intros off; simpl; [done|].
  intros [Hm Hrest]%andb_true_iff. apply Nat.eqb_eq in Hm.
  unfold member_align_log. rewrite align_up_aligned by done.
  f_equal. by apply IH.
Qed.

Lemma end_offset_natural p off ms :
  naturally_aligned off ms = true -> end_offset p off ms = (off + total_size ms)%nat.
Proof.
  unfold total_size.
  revert off. induction ms as [|m ms IH]; intros off; simpl; [lia|].
  intros [Hm Hrest]%andb_true_iff. apply Nat.eqb_eq in Hm.
  unfold member_align_log. rewrite align_up_aligned by done.
  rewrite IH by done. lia.
Qed.

Lemma struct_align_log_min p ms :
  struct_align_log p ms = Nat.min (foldr Nat.max 0 (map (fun m => align_log (mtype m)) ms)) p.
Proof.
  unfold struct_align_log, member_align_log.
  induction ms as [|m ms IH]; simpl; [lia|]. rewrite IH. lia.
Qed.

End CLayout.

Module TetherLayout.
Import CLayout.

(** [#pragma pack(push, 8)]: the pack value 8 is [2 ^ 3]. *)
Definition pragma_pack_log : nat := 3.

(** The members of [struct FTetherHeader], in declaration order. *)
Definition FTetherHeader_members : list member :=
  [ Member "Magic" TUInt32;
    Member "FlowID" TUInt16;
    Member "Flags" TUInt8;
    Member "Reserved" TUInt8;
    Member "SenderID" (TArray TUInt8 6);
    Member "TargetID" (TArray TUInt8 6);
    Member "Tai64Nano" TUInt32;
    Member "TokenID" TUInt64;
    Member "GrantAmount" TUInt64;
    Member "NackToken" TUInt64;
    Member "Checksum" TUInt64;
    Member "Tai64Sec" TUInt64 ].

(** The wire table of RFC 0001 (offset of each field). *)
Definition rfc_offsets : list (string * nat) :=
  [ ("Magic", 0); ("FlowID", 4); ("Flags", 6); ("Reserved", 7);
    ("SenderID", 8); ("TargetID", 14); ("Tai64Nano", 20);
    ("TokenID", 24); ("GrantAmount", 32); ("NackToken", 40);
    ("Checksum", 48); ("Tai64Sec", 56) ]%nat.

Definition rfc_size : nat := 64.

Lemma FTetherHeader_naturally_aligned :
  naturally_aligned 0 FTetherHeader_members = true.
Proof. reflexivity. Qed.

Lemma FTetherHeader_place p :
  place p 0 FTetherHeader_members = contiguous 0 FTetherHeader_members.
Proof. apply place_natural, FTetherHeader_naturally_aligned. Qed.

Lemma FTetherHeader_align_log p :
  struct_align_log p FTetherHeader_members = Nat.min 3 p.
Proof. rewrite struct_align_log_min. reflexivity. Qed.

Lemma FTetherHeader_struct_size p :
  struct_size p FTetherHeader_members = rfc_size.
Proof.
  unfold struct_size. rewrite FTetherHeader_align_log.
  rewrite end_offset_natural by apply FTetherHeader_naturally_aligned.
  by apply (align_up_aligned _ 3).
Qed.

Lemma FTetherHeader_end_offset p :
  end_offset p 0 FTetherHeader_members = rfc_size.
Proof. rewrite end_offset_natural by apply FTetherHeader_naturally_aligned. done. Qed.

(** C1: whatever the pack value [2 ^ p] of the [#pragma pack], the
    compiler places the members of [FTetherHeader] exactly at the
    offsets of the RFC table, with no padding anywhere, and
    [sizeof(FTetherHeader)] is 64. *)
Theorem FTetherHeader_layout_rfc (p : nat) :
  place p 0 FTetherHeader_members = rfc_offsets
  /\ struct_size p FTetherHeader_members = rfc_size
  /\ total_size FTetherHeader_members = rfc_size.
Proof.
  split; [rewrite FTetherHeader_place; reflexivity|].
  split; [apply FTetherHeader_struct_size|reflexivity].
Qed.

(** C2: every member of [FTetherHeader] sits at a multiple of its
    natural alignment, for every pack value: no member access is
    misaligned. *)
Theorem FTetherHeader_members_aligned (p : nat) name t o :
  Member name t ∈ FTetherHeader_members ->
  offsetof p FTetherHeader_members name = Some o ->
  (o mod 2 ^ align_log t = 0)%nat.
Proof.
  unfold offsetof. rewrite FTetherHeader_place.
  intros Hin Ho. unfold FTetherHeader_members in Hin.
  repeat (apply elem_of_cons in Hin as [Hin|Hin];
          [injection Hin as -> ->; vm_compute in Ho; injection Ho as <-; reflexivity|]).
  by apply not_elem_of_nil in Hin.
Qed.

Lemma FTetherHeader_members_aligned_witness :
  offsetof 3 FTetherHeader_members "TokenID" = Some 24%nat
  /\ (24 mod 2 ^ align_log TUInt64 = 0)%nat.
Proof.
  split; [reflexivity|].
  apply (FTetherHeader_members_aligned 3 "TokenID" TUInt64 24); [|reflexivity].
  apply list_elem_of_In. unfold FTetherHeader_members. simpl.
  repeat (first [left; reflexivity | right]).
Defined.

(** C3: the struct is 8-byte aligned under [#pragma pack(push, 8)]
    (the header comment's "Alignment: 8 Bytes (Natural)"); under a
    smaller pack value [2 ^ p] its alignment drops to [2 ^ p]. *)
Theorem FTetherHeader_alignment (p : nat) :
  (2 ^ struct_align_log p FTetherHeader_members = 2 ^ Nat.min 3 p)%nat
  /\ (2 ^ struct_align_log pragma_pack_log FTetherHeader_members = 8)%nat.
Proof. rewrite !FTetherHeader_align_log. done. Qed.

End TetherLayout.
