(* ===== verification/Header.v ===== *)
(** * Header: [TetherConstants] and [struct FTetherHeader] as values

    [Module TetherConstants] is the namespace of the same name
    ([MagicObol], [FlagLamp], [FlagSync]).  [Module Header] holds the
    struct as a record whose scalar members are integers kept at their
    C++ width and whose two [uint8[6]] members are byte lists, the type
    invariant [header_wf], the three ways the code lets a header be
    created (default initialisation, where [Magic] has no default member
    initialiser, value initialisation [FTetherHeader{}], and aggregate
    initialisation of [Magic] alone), member assignment with the C++
    narrowing conversion, and the flag tests the spec names. *)

From S2P Require Import Prelude.
From stdpp Require Import strings.
Local Open Scope Z_scope.

Module TetherConstants.
Definition MagicObol : Z := 0x4F424F4C.
Definition FlagLamp : Z := 0x01.
Definition FlagSync : Z := 0x02.
End TetherConstants.

Module Header.
Import TetherConstants.

Record FTetherHeader := MkHeader {
  Magic : Z;           (* uint32 *)
  FlowID : Z;          (* uint16 *)
  Flags : Z;           (* uint8 *)
  Reserved : Z;        (* uint8 *)
  SenderID : list Z;   (* uint8[6] *)
  TargetID : list Z;   (* uint8[6] *)
  Tai64Nano : Z;       (* uint32 *)
  TokenID : Z;         (* uint64 *)
  GrantAmount : Z;     (* uint64 *)
  NackToken : Z;       (* uint64 *)
  Checksum : Z;        (* uint64 *)
  Tai64Sec : Z         (* uint64 *)
}.

#[export] Instance FTetherHeader_eq_dec : EqDecision FTetherHeader.
Proof. solve_decision. Defined.

Definition id_ok (a : list Z) : bool := (length a =? 6)%nat && bytes_ok a.

(** The type invariant: every member holds a value of its C++ type. *)
Definition header_wf (h : FTetherHeader) : bool :=
  fits 32 (Magic h) && fits 16 (FlowID h) && fits 8 (Flags h)
  && fits 8 (Reserved h) && id_ok (SenderID h) && id_ok (TargetID h)
  && fits 32 (Tai64Nano h) && fits 64 (TokenID h) && fits 64 (GrantAmount h)
  && fits 64 (NackToken h) && fits 64 (Checksum h) && fits 64 (Tai64Sec h).

(** ** Creation *)

(** [FTetherHeader h;]: every member but [Magic] takes its default
    member initialiser; [Magic] is left indeterminate, modelled by the
    value [garbage] the storage happens to hold. *)
Definition default_init (garbage : Z) : FTetherHeader :=
  {| Magic := garbage; FlowID := 0; Flags := 0; Reserved := 0;
     SenderID := replicate 6 0; TargetID := replicate 6 0;
     Tai64Nano := 0; TokenID := 0; GrantAmount := 0; NackToken := 0;
     Checksum := 0; Tai64Sec := 0 |}.

(** [FTetherHeader h{};]: aggregate initialisation with no initialiser;
    [Magic], which has no default member initialiser, is
    copy-initialised from [{}], that is zero. *)
Definition value_init : FTetherHeader := default_init 0.

(** [FTetherHeader h{m};]: the first member from [m], the others from
    their default member initialisers.  A value that does not fit a
    [uint32] would be a narrowing conversion in list-initialisation, which
    makes the program ill-formed ([None]). *)
Definition aggregate_init_magic (m : Z) : option FTetherHeader :=
  if fits 32 m then Some (default_init m) else None.

(** ** Member assignment [h.X = v] *)

Inductive scalar_member :=
| MMagic | MFlowID | MFlags | MReserved | MTai64Nano
| MTokenID | MGrantAmount | MNackToken | MChecksum | MTai64Sec.

#[export] Instance scalar_member_eq_dec : EqDecision scalar_member.
Proof. solve_decision. Defined.

Definition width (m : scalar_member) : Z :=
  match m with
  | MMagic | MTai64Nano => 32
  | MFlowID => 16
  | MFlags | MReserved => 8
  | MTokenID | MGrantAmount | MNackToken | MChecksum | MTai64Sec => 64
  end.

(** The member's name in the declaration of [FTetherHeader]. *)
Definition member_name (m : scalar_member) : string :=
  match m with
  | MMagic => "Magic" | MFlowID => "FlowID" | MFlags => "Flags"
  | MReserved => "Reserved" | MTai64Nano => "Tai64Nano" | MTokenID => "TokenID"
  | MGrantAmount => "GrantAmount" | MNackToken => "NackToken"
  | MChecksum => "Checksum" | MTai64Sec => "Tai64Sec"
  end.

Definition get (m : scalar_member) (h : FTetherHeader) : Z :=
  match m with
  | MMagic => Magic h | MFlowID => FlowID h | MFlags => Flags h
  | MReserved => Reserved h | MTai64Nano => Tai64Nano h
  | MTokenID => TokenID h | MGrantAmount => GrantAmount h
  | MNackToken => NackToken h | MChecksum => Checksum h
  | MTai64Sec => Tai64Sec h
  end.

(** The record with member [m] replaced by [x], all others kept. *)
Definition put (m : scalar_member) (x : Z) (h : FTetherHeader) : FTetherHeader :=
  let 'MkHeader mg fl fs rs sd tg ns tk ga nk cs sc := h in
  match m with
  | MMagic => MkHeader x fl fs rs sd tg ns tk ga nk cs sc
  | MFlowID => MkHeader mg x fs rs sd tg ns tk ga nk cs sc
  | MFlags => MkHeader mg fl x rs sd tg ns tk ga nk cs sc
  | MReserved => MkHeader mg fl fs x sd tg ns tk ga nk cs sc
  | MTai64Nano => MkHeader mg fl fs rs sd tg x tk ga nk cs sc
  | MTokenID => MkHeader mg fl fs rs sd tg ns x ga nk cs sc
  | MGrantAmount => MkHeader mg fl fs rs sd tg ns tk x nk cs sc
  | MNackToken => MkHeader mg fl fs rs sd tg ns tk ga x cs sc
  | MChecksum => MkHeader mg fl fs rs sd tg ns tk ga nk x sc
  | MTai64Sec => MkHeader mg fl fs rs sd tg ns tk ga nk cs x
  end.

(** [h.m = v]: the integer [v] is converted to the member's unsigned
    type, that is reduced modulo [2 ^ width]. *)
Definition assign (m : scalar_member) (v : Z) (h : FTetherHeader) : FTetherHeader :=
  put m (wrap (width m) v) h.

Inductive id_member := MSenderID | MTargetID.

#[export] Instance id_member_eq_dec : EqDecision id_member.
Proof. solve_decision. Defined.

Definition get_id (a : id_member) (h : FTetherHeader) : list Z :=
  match a with MSenderID => SenderID h | MTargetID => TargetID h end.

Definition put_id (a : id_member) (bs : list Z) (h : FTetherHeader) : FTetherHeader :=
  let 'MkHeader mg fl fs rs sd tg ns tk ga nk cs sc := h in
  match a with
  | MSenderID => MkHeader mg fl fs rs bs tg ns tk ga nk cs sc
  | MTargetID => MkHeader mg fl fs rs sd bs ns tk ga nk cs sc
  end.

(** [h.SenderID[i] = v]: the index must be below 6, a write past the
    array is undefined behaviour, reported as [None]. *)
Definition assign_elem (a : id_member) (i : nat) (v : Z) (h : FTetherHeader)
  : option FTetherHeader :=
  if (i <? 6)%nat then Some (put_id a (<[i := wrap 8 v]> (get_id a h)) h) else None.

(** ** Flag tests: [(Flags & FlagLamp) != 0] and [(Flags & FlagSync) != 0] *)

Definition hasLamp (h : FTetherHeader) : bool := negb (Z.land (Flags h) FlagLamp =? 0).
Definition hasSync (h : FTetherHeader) : bool := negb (Z.land (Flags h) FlagSync =? 0).

Definition has_valid_magic (h : FTetherHeader) : bool := Magic h =? MagicObol.

(** ** Lemmas on members *)

Lemma get_put_same m x h : get m (put m x h) = x.
Proof. destruct h, m; reflexivity. Qed.

Lemma get_put_other m m' x h : m' <> m -> get m' (put m x h) = get m' h.
Proof. intros Hne. destruct h, m, m'; done. Qed.

Lemma get_id_put a m x h : get_id a (put m x h) = get_id a h.
Proof. destruct h, m, a; reflexivity. Qed.

Lemma get_put_id m a bs h : get m (put_id a bs h) = get m h.
Proof. destruct h, m, a; reflexivity. Qed.

Lemma get_id_put_id_same a bs h : get_id a (put_id a bs h) = bs.
Proof. destruct h, a; reflexivity. Qed.

Lemma get_id_put_id_other a a' bs h : a' <> a -> get_id a' (put_id a bs h) = get_id a' h.
Proof. intros Hne. destruct h, a, a'; done. Qed.

#[export] Hint Rewrite get_put_same get_id_put get_put_id get_id_put_id_same : tether_len.

Lemma width_nonneg m : 0 <= width m.
Proof. destruct m; simpl; lia. Qed.

(** The invariant, member by member. *)
Lemma header_wf_members h :
  header_wf h = true <->
  (forall m, get m h fits_in width m) /\ (forall a, id_ok (get_id a h) = true).
Proof.
  destruct h. unfold header_wf. rewrite !andb_true_iff. split.
  - intros. destruct_and!. split; intros []; done.
  - intros [Hm Ha]. split_and!;
      first [exact (Hm MMagic) | exact (Hm MFlowID) | exact (Hm MFlags)
            | exact (Hm MReserved) | exact (Hm MTai64Nano) | exact (Hm MTokenID)
            | exact (Hm MGrantAmount) | exact (Hm MNackToken) | exact (Hm MChecksum)
            | exact (Hm MTai64Sec) | exact (Ha MSenderID) | exact (Ha MTargetID)].
Qed.

Lemma wf_ids h :
  header_wf h = true ->
  length (SenderID h) = 6%nat /\ length (TargetID h) = 6%nat
  /\ bytes_ok (SenderID h) = true /\ bytes_ok (TargetID h) = true.
Proof.
  intros [_ Ha]%header_wf_members.
  pose proof (Ha MSenderID) as Hs. pose proof (Ha MTargetID) as Ht.
  unfold id_ok in Hs, Ht. simpl in Hs, Ht.
  apply andb_true_iff in Hs as [Hs%Nat.eqb_eq Hs'].
  apply andb_true_iff in Ht as [Ht%Nat.eqb_eq Ht']. done.
Qed.

Lemma id_ok_insert bs i x :
  id_ok bs = true -> x fits_in 8 -> id_ok (<[i := x]> bs) = true.
Proof.
  unfold id_ok. rewrite !andb_true_iff, length_insert, !bytes_ok_Forall.
  intros [Hl Hb] Hx. split; [done|]. apply Forall_insert; [done|]. by apply fits_spec.
Qed.

Lemma put_wf m x h :
  header_wf h = true -> x fits_in width m -> header_wf (put m x h) = true.
Proof.
  intros [Hm Ha]%header_wf_members Hx. apply header_wf_members.
  split; [|intros a; by rewrite get_id_put].
  intros m'. destruct (decide (m' = m)) as [->|Hne].
  - by rewrite get_put_same.
  - rewrite get_put_other by done. apply Hm.
Qed.

Lemma put_get m h : put m (get m h) h = h.
Proof. destruct h, m; reflexivity. Qed.

(** ** Properties *)

(** C5: [h.SenderID[i] = v] (or [TargetID]) within the array keeps the
    header well-typed, stores [v] reduced to a byte at index [i] and
    changes nothing else; an index of 6 or more is refused. *)
Theorem assign_elem_spec a i v h :
  header_wf h = true ->
  ((i < 6)%nat ->
   exists h', assign_elem a i v h = Some h'
     /\ header_wf h' = true
     /\ get_id a h' !! i = Some (wrap 8 v)
     /\ (forall j, j <> i -> get_id a h' !! j = get_id a h !! j)
     /\ (forall a', a' <> a -> get_id a' h' = get_id a' h)
     /\ (forall m, get m h' = get m h))
  /\ ((6 <= i)%nat -> assign_elem a i v h = None).
Proof.
  intros Hwf. pose proof Hwf as [Hm Ha]%header_wf_members. unfold assign_elem. split.
  - intros Hi. rewrite (proj2 (Nat.ltb_lt _ _) Hi). eexists; split; [done|].
    assert (Hlen : length (get_id a h) = 6%nat).
    { specialize (Ha a). unfold id_ok in Ha. apply andb_true_iff in Ha as [Ha _].
      by apply Nat.eqb_eq. }
    rewrite get_id_put_id_same. split_and!.
    + apply header_wf_members. split; [intros m; rewrite get_put_id; apply Hm|].
      intros a'. destruct (decide (a' = a)) as [->|Hne].
      * rewrite get_id_put_id_same. apply id_ok_insert; [done|]. by apply wrap_fits.
      * rewrite get_id_put_id_other by done. apply Ha.
    + apply list_lookup_insert_eq. lia.
    + intros j Hj. by apply list_lookup_insert_ne.
    + intros a' Hne. by apply get_id_put_id_other.
    + intros m. apply get_put_id.
  - intros Hi. by rewrite (proj2 (Nat.ltb_ge _ _) Hi).
Qed.

Example assign_elem_spec_witness :
  header_wf value_init = true /\ (3 < 6)%nat
  /\ exists h', assign_elem MSenderID 3 260 value_init = Some h'
                /\ SenderID h' !! 3%nat = Some 4.
Proof.
  split_and!; [reflexivity|lia|].
  destruct (assign_elem_spec MSenderID 3 260 value_init eq_refl) as [Hin _].
  destruct (Hin ltac:(lia)) as (h' & Hs & _ & Hget & _).
  exists h'. split; [exact Hs|exact Hget].
Defined.



(** C7: [hasLamp] and [hasSync] read bit 0 and bit 1 of [Flags], and
    setting one flag with [h.Flags |= FlagLamp] (or [FlagSync]) turns
    its test on and leaves the other test as it was. *)
Theorem flags_spec h :
  hasLamp h = Z.testbit (Flags h) 0
  /\ hasSync h = Z.testbit (Flags h) 1
  /\ hasLamp (assign MFlags (Z.lor (Flags h) FlagLamp) h) = true
  /\ hasSync (assign MFlags (Z.lor (Flags h) FlagLamp) h) = hasSync h
  /\ hasSync (assign MFlags (Z.lor (Flags h) FlagSync) h) = true
  /\ hasLamp (assign MFlags (Z.lor (Flags h) FlagSync) h) = hasLamp h.
Proof.
  assert (Hbit : forall x k, (0 <= k < 8) ->
    Z.testbit (wrap 8 x) k = Z.testbit x k).
  { intros x k Hk. unfold wrap. rewrite <- Z.land_ones by lia.
    rewrite Z.land_spec, Z.ones_spec_low by lia. apply andb_true_r. }
  assert (Hl : forall h', hasLamp h' = Z.testbit (Flags h') 0)
    by (intros; apply (land_pow2_nonzero _ 0); lia).
  assert (Hs : forall h', hasSync h' = Z.testbit (Flags h') 1)
    by (intros; apply (land_pow2_nonzero _ 1); lia).
  assert (Hf : forall x, Flags (assign MFlags x h) = wrap 8 x)
    by (intros; apply (get_put_same MFlags)).
  rewrite !Hl, !Hs, !Hf, !Hbit, !Z.lor_spec by lia.
  split_and!; try done; by rewrite ?orb_true_r, ?orb_false_r.
Qed.

Example flags_3_and_0 :
  hasLamp (assign MFlags 3 value_init) = true /\ hasSync (assign MFlags 3 value_init) = true
  /\ hasLamp value_init = false /\ hasSync value_init = false.
Proof. split_and!; reflexivity. Qed.

End Header.
