(* ===== verification/ObjectRep.v ===== *)
(** * ObjectRep: the 64 bytes of an [FTetherHeader] object

    The header is meant to travel as the bytes of the struct itself (the
    packing pragma and the "Physical Layout: 64 Bytes" comment).  This file
    models that object representation: each member's bytes in the native
    byte order of the machine ([endian]), placed at the offsets the layout
    algorithm of [Layout.CLayout] computes, with any padding bytes holding
    an unspecified value [pad]; and the converse view of a 64-byte buffer
    as an [FTetherHeader] (a [memcpy] into the struct), reading each member
    at its offset.  Both directions are stated for every pack value and
    every padding content, and so is the effect of a member assignment on
    the bytes of the object (which bytes change, and to what). *)

From S2P Require Import Prelude Layout Header.

Module ObjectRep.
Import CLayout TetherLayout TetherConstants Header.

Inductive endian := LittleEndian | BigEndian.

#[export] Instance endian_eq_dec : EqDecision endian.
Proof. solve_decision. Defined.

(** The object representation of an [n]-byte unsigned integer. *)
Definition encode_uint (e : endian) (n : nat) (z : Z) : list Z :=
  match e with LittleEndian => le_bytes n z | BigEndian => be_bytes n z end.

Definition decode_uint (e : endian) (bs : list Z) : Z :=
  match e with LittleEndian => le_value bs | BigEndian => be_value bs end.

(** The bytes of each member, in declaration order. *)
Definition member_bytes (e : endian) (h : FTetherHeader) : list (list Z) :=
  [ encode_uint e 4 (Magic h); encode_uint e 2 (FlowID h);
    encode_uint e 1 (Flags h); encode_uint e 1 (Reserved h);
    SenderID h; TargetID h;
    encode_uint e 4 (Tai64Nano h); encode_uint e 8 (TokenID h);
    encode_uint e 8 (GrantAmount h); encode_uint e 8 (NackToken h);
    encode_uint e 8 (Checksum h); encode_uint e 8 (Tai64Sec h) ].

(** The position of a scalar member in the declaration. *)
Definition member_index (m : scalar_member) : nat :=
  match m with
  | MMagic => 0 | MFlowID => 1 | MFlags => 2 | MReserved => 3
  | MTai64Nano => 6 | MTokenID => 7 | MGrantAmount => 8 | MNackToken => 9
  | MChecksum => 10 | MTai64Sec => 11
  end.

(** Members placed by the layout rule, padding filled with [pad]. *)
Fixpoint emit (p : nat) (pad : Z) (off : nat) (ms : list member)
    (vals : list (list Z)) : list Z :=
  match ms, vals with
  | m :: ms', v :: vs' =>
      let o := align_up off (2 ^ member_align_log p (mtype m)) in
      replicate (o - off) pad ++ v ++ emit p pad (o + sizeof (mtype m)) ms' vs'
  | _, _ => []
  end.

(** The bytes of the object [h] under [#pragma pack(2 ^ p)]. *)
Definition object_bytes (e : endian) (p : nat) (pad : Z) (h : FTetherHeader)
    : list Z :=
  emit p pad 0 FTetherHeader_members (member_bytes e h)
  ++ replicate (struct_size p FTetherHeader_members
                - end_offset p 0 FTetherHeader_members) pad.

(** The bytes of each member of a buffer viewed as the struct. *)
Fixpoint member_slices (p off : nat) (ms : list member) (bs : list Z)
    : list (list Z) :=
  match ms with
  | [] => []
  | m :: ms' =>
      let o := align_up off (2 ^ member_align_log p (mtype m)) in
      slice o (sizeof (mtype m)) bs :: member_slices p (o + sizeof (mtype m)) ms' bs
  end.

Definition header_of_slices (e : endian) (sl : list (list Z))
    : option FTetherHeader :=
  match sl with
  | [mg; fl; fs; rs; sd; tg; ns; tk; ga; nk; cs; sc] =>
      Some (MkHeader (decode_uint e mg) (decode_uint e fl) (decode_uint e fs)
              (decode_uint e rs) sd tg (decode_uint e ns) (decode_uint e tk)
              (decode_uint e ga) (decode_uint e nk) (decode_uint e cs)
              (decode_uint e sc))
  | _ => None
  end.

(** A buffer read as an [FTetherHeader] (under the code's
    [#pragma pack(push, 8)]): it must hold [sizeof(FTetherHeader)]
    bytes. *)
Definition of_object_bytes (e : endian) (bs : list Z) : option FTetherHeader :=
  if (length bs =? struct_size pragma_pack_log FTetherHeader_members)%nat
     && bytes_ok bs
  then header_of_slices e (member_slices pragma_pack_log 0 FTetherHeader_members bs)
  else None.

(** ** Lemmas *)

Definition sizes_match (ms : list member) (vs : list (list Z)) : Prop :=
  Forall2 (fun m v => length v = sizeof (mtype m)) ms vs.

Lemma emit_natural p pad off ms vs :
  naturally_aligned off ms = true -> sizes_match ms vs ->
  emit p pad off ms vs = concat vs.
Proof.
  intros Hnat Hs. revert off Hnat.
  induction Hs as [|m v ms vs Hv Hs IH]; intros off Hnat; [done|].
  simpl in *. apply andb_true_iff in Hnat as [Hm Hnat]. apply Nat.eqb_eq in Hm.
  unfold member_align_log. rewrite align_up_aligned by done.
  rewrite Nat.sub_diag. simpl. f_equal. by apply IH.
Qed.

Lemma member_slices_natural p ms vs pre post :
  naturally_aligned (length pre) ms = true -> sizes_match ms vs ->
  member_slices p (length pre) ms (pre ++ concat vs ++ post) = vs.
Proof.
  intros Hnat Hs. revert pre Hnat.
  induction Hs as [|m v ms vs Hv Hs IH]; intros pre Hnat; [done|].
  simpl in *. apply andb_true_iff in Hnat as [Hm Hnat]. apply Nat.eqb_eq in Hm.
  unfold member_align_log. rewrite align_up_aligned by done.
  rewrite <- Hv, <- app_assoc, slice_app_mid. f_equal.
  rewrite <- length_app, app_assoc. apply IH.
  by rewrite length_app, Hv.
Qed.

Lemma concat_member_slices p ms bs pre :
  naturally_aligned (length pre) ms = true ->
  length bs = total_size ms ->
  concat (member_slices p (length pre) ms (pre ++ bs)) = bs.
Proof.
  unfold total_size. revert pre bs.
  induction ms as [|m ms IH]; intros pre bs Hnat Hlen; simpl in *.
  - by destruct bs.
  - apply andb_true_iff in Hnat as [Hm Hnat]. apply Nat.eqb_eq in Hm.
    unfold member_align_log. rewrite align_up_aligned by done.
    pose proof (take_drop (sizeof (mtype m)) bs) as Hbs.
    remember (take (sizeof (mtype m)) bs) as t eqn:Ht.
    remember (drop (sizeof (mtype m)) bs) as d eqn:Hd.
    assert (Htl : length t = sizeof (mtype m)) by (subst t; rewrite length_take; lia).
    assert (Hdl : length d = sum_list (map (fun m => sizeof (mtype m)) ms))
      by (subst d; rewrite length_drop; lia).
    rewrite <- Hbs. clear Ht Hd Hbs Hlen.
    replace (slice (length pre) (sizeof (mtype m)) (pre ++ t ++ d)) with t
      by (rewrite <- Htl; symmetry; apply slice_app_mid).
    replace (length pre + sizeof (mtype m))%nat with (length (pre ++ t))
      by (rewrite length_app; lia).
    rewrite app_assoc, IH; [done| |done].
    by rewrite length_app, Htl.
Qed.

Lemma member_slices_lengths p ms bs pre :
  naturally_aligned (length pre) ms = true ->
  length bs = total_size ms ->
  map length (member_slices p (length pre) ms (pre ++ bs))
  = map (fun m => sizeof (mtype m)) ms.
Proof.
  unfold total_size. revert pre bs.
  induction ms as [|m ms IH]; intros pre bs Hnat Hlen; simpl in *; [done|].
  apply andb_true_iff in Hnat as [Hm Hnat]. apply Nat.eqb_eq in Hm.
  unfold member_align_log. rewrite align_up_aligned by done.
  f_equal.
  - unfold slice. rewrite drop_app_length, length_take. lia.
  - rewrite <- (take_drop (sizeof (mtype m)) bs), app_assoc.
    replace (length pre + sizeof (mtype m))%nat
      with (length (pre ++ take (sizeof (mtype m)) bs))
      by (rewrite length_app, length_take; lia).
    apply IH; rewrite ?length_app, ?length_take, ?length_drop;
      [by replace (length pre + _)%nat with (length pre + sizeof (mtype m))%nat by lia|lia].
Qed.

Lemma length_concat_sizes ms vs :
  sizes_match ms vs -> length (concat vs) = total_size ms.
Proof.
  unfold total_size. induction 1 as [|m v ms vs Hv _ IH]; simpl; [done|].
  rewrite length_app. lia.
Qed.

(** ** Integers in memory *)

Lemma length_encode_uint e n z : length (encode_uint e n z) = n.
Proof. destruct e; simpl; autorewrite with tether_len; done. Qed.

Lemma encode_uint_ok e n z : bytes_ok (encode_uint e n z) = true.
Proof. destruct e; simpl; auto with tether. Qed.

Lemma decode_encode_uint e n z :
  decode_uint e (encode_uint e n z) = wrap (8 * Z.of_nat n) z.
Proof. destruct e; [apply le_value_le_bytes|apply be_value_be_bytes]. Qed.

Lemma encode_decode_uint e bs :
  bytes_ok bs = true -> encode_uint e (length bs) (decode_uint e bs) = bs.
Proof. destruct e; [apply le_bytes_le_value|apply be_bytes_be_value]. Qed.

Lemma decode_uint_fits e bs :
  bytes_ok bs = true -> decode_uint e bs fits_in (8 * Z.of_nat (length bs)).
Proof. destruct e; [apply le_value_fits|apply be_value_fits]. Qed.

#[export] Hint Rewrite length_encode_uint decode_encode_uint : tether_len.

Lemma member_bytes_sizes e h :
  header_wf h = true -> sizes_match FTetherHeader_members (member_bytes e h).
Proof.
  intros (Hs & Ht & _)%wf_ids.
  repeat constructor; simpl; by rewrite ?length_encode_uint.
Qed.

Lemma member_bytes_ok e h :
  header_wf h = true -> bytes_ok (concat (member_bytes e h)) = true.
Proof.
  intros (_ & _ & Hs & Ht)%wf_ids.
  rewrite bytes_ok_concat. simpl. by rewrite Hs, Ht, !encode_uint_ok.
Qed.

(** The layout-built object is the members' bytes end to end. *)
Lemma object_bytes_eq e p pad h :
  header_wf h = true -> object_bytes e p pad h = concat (member_bytes e h).
Proof.
  intros Hwf. unfold object_bytes.
  rewrite FTetherHeader_struct_size, FTetherHeader_end_offset, Nat.sub_diag, app_nil_r.
  apply emit_natural; [apply FTetherHeader_naturally_aligned|by apply member_bytes_sizes].
Qed.

Lemma header_of_member_bytes e h :
  header_wf h = true -> header_of_slices e (member_bytes e h) = Some h.
Proof.
  intros Hwf. pose proof Hwf as [Hm _]%header_wf_members.
  destruct h. simpl. autorewrite with tether_len.
  rewrite !wrap_id; [done|..];
    first [exact (Hm MMagic) | exact (Hm MFlowID) | exact (Hm MFlags)
          | exact (Hm MReserved) | exact (Hm MTai64Nano) | exact (Hm MTokenID)
          | exact (Hm MGrantAmount) | exact (Hm MNackToken) | exact (Hm MChecksum)
          | exact (Hm MTai64Sec)].
Qed.

Lemma of_object_bytes_object_bytes e p pad h :
  header_wf h = true -> of_object_bytes e (object_bytes e p pad h) = Some h.
Proof.
  intros Hwf. rewrite object_bytes_eq by done. unfold of_object_bytes.
  erewrite length_concat_sizes by (by apply member_bytes_sizes).
  rewrite FTetherHeader_struct_size, Nat.eqb_refl, member_bytes_ok by done. cbn [andb].
  rewrite <- (app_nil_l (concat _)), <- (app_nil_r (concat _)).
  rewrite (member_slices_natural _ _ _ [] []);
    [by apply header_of_member_bytes|apply FTetherHeader_naturally_aligned
    |by apply member_bytes_sizes].
Qed.

Lemma length_object_bytes e p pad h :
  header_wf h = true -> length (object_bytes e p pad h) = rfc_size.
Proof.
  intros Hwf. rewrite object_bytes_eq by done.
  erewrite length_concat_sizes by (by apply member_bytes_sizes). done.
Qed.

Lemma of_object_bytes_none e bs :
  length bs <> rfc_size -> of_object_bytes e bs = None.
Proof.
  intros Hlen. unfold of_object_bytes. rewrite FTetherHeader_struct_size.
  by rewrite (proj2 (Nat.eqb_neq _ _) Hlen).
Qed.

Lemma of_object_bytes_some e bs :
  length bs = rfc_size -> bytes_ok bs = true -> is_Some (of_object_bytes e bs).
Proof.
  intros Hlen Hok. unfold of_object_bytes.
  rewrite FTetherHeader_struct_size, Hlen, Nat.eqb_refl, Hok. by eexists.
Qed.

(** The members a buffer yields are read at the RFC offsets. *)
Lemma of_object_bytes_fields e bs h :
  of_object_bytes e bs = Some h ->
  length bs = rfc_size /\ bytes_ok bs = true
  /\ Magic h = decode_uint e (slice 0 4 bs)
  /\ Tai64Nano h = decode_uint e (slice 20 4 bs)
  /\ Checksum h = decode_uint e (slice 48 8 bs).
Proof.
  unfold of_object_bytes. rewrite FTetherHeader_struct_size.
  destruct (Nat.eqb_spec (length bs) rfc_size); [|done].
  destruct (bytes_ok bs); [|done]. simpl. intros [= <-]. done.
Qed.

(** The bytes before the [Checksum] member, the member, and [Tai64Sec]. *)
Lemma member_bytes_split e h :
  concat (member_bytes e h)
  = concat (take 10 (member_bytes e h))
    ++ encode_uint e 8 (Checksum h) ++ encode_uint e 8 (Tai64Sec h).
Proof. unfold member_bytes. simpl. by rewrite !app_nil_r, <- !app_assoc. Qed.

Lemma length_member_bytes_prefix e h :
  header_wf h = true -> length (concat (take 10 (member_bytes e h))) = 48%nat.
Proof.
  intros (Hs & Ht & _)%wf_ids. unfold member_bytes. simpl.
  rewrite !length_app, !length_encode_uint, Hs, Ht. reflexivity.
Qed.

(** The declared type of a member fixes the width [Header] gives it. *)
Lemma member_width m t :
  Member (member_name m) t ∈ FTetherHeader_members -> width m = 8 * Z.of_nat (sizeof t).
Proof.
  intros Hin. unfold FTetherHeader_members in Hin.
  destruct m; cbn [member_name] in Hin;
    repeat (apply elem_of_cons in Hin as [Hin|Hin];
            [simplify_eq; reflexivity|]);
    by apply not_elem_of_nil in Hin.
Qed.

(** Storing [x] into member [m] replaces that member's block of the
    image, which starts at the member's offset. *)
Lemma put_member_bytes e p m x h o :
  header_wf h = true ->
  offsetof p FTetherHeader_members (member_name m) = Some o ->
  member_bytes e (put m x h)
  = <[member_index m := encode_uint e (Z.to_nat (width m / 8)) x]> (member_bytes e h)
  /\ member_bytes e h !! member_index m
     = Some (encode_uint e (Z.to_nat (width m / 8)) (get m h))
  /\ o = block_offset (member_bytes e h) (member_index m).
Proof.
  intros (Hs & Ht & _)%wf_ids Ho. unfold offsetof in Ho.
  rewrite FTetherHeader_place in Ho.
  destruct m; simpl in Ho; injection Ho as <-;
    (split_and!; [by destruct h|done|]);
    unfold block_offset; simpl; rewrite ?length_encode_uint, ?Hs, ?Ht; reflexivity.
Qed.

(** ** Properties *)

(** C4: the assignment [h.m = v] to a scalar member declared with type
    [t] at offset [o] keeps the header well-typed, writes the low
    [8 * sizeof t] bits of [v] into exactly the bytes [o .. o + sizeof t]
    of the object, and leaves every other byte of the object as it was,
    for every pack value and padding content. *)
Theorem assign_object_bytes e p pad m v h t o :
  header_wf h = true ->
  Member (member_name m) t ∈ FTetherHeader_members ->
  offsetof p FTetherHeader_members (member_name m) = Some o ->
  header_wf (assign m v h) = true
  /\ slice o (sizeof t) (object_bytes e p pad (assign m v h))
     = encode_uint e (sizeof t) (v mod 2 ^ (8 * Z.of_nat (sizeof t)))
  /\ (forall j, (j < o \/ o + sizeof t <= j)%nat ->
      object_bytes e p pad (assign m v h) !! j = object_bytes e p pad h !! j).
Proof.
  intros Hwf Hin Ho. pose proof (member_width m t Hin) as Hw.
  assert (Hn : Z.to_nat (width m / 8) = sizeof t).
  { rewrite Hw, Z.mul_comm, Z.div_mul by lia. apply Nat2Z.id. }
  unfold assign. set (x := wrap (width m) v).
  assert (Hwf' : header_wf (put m x h) = true)
    by (apply put_wf; [done|apply wrap_fits, width_nonneg]).
  destruct (put_member_bytes e p m x h o Hwf Ho) as (Hmb & Hk & ->).
  rewrite Hn in Hmb, Hk.
  rewrite !object_bytes_eq, Hmb by done.
  assert (Hlt : (member_index m < length (member_bytes e h))%nat)
    by (eapply lookup_lt_Some; eauto).
  split_and!; [done| |].
  - assert (Hb : block_offset (<[member_index m := encode_uint e (sizeof t) x]> (member_bytes e h))
                   (member_index m) = block_offset (member_bytes e h) (member_index m))
      by (unfold block_offset; by rewrite take_insert_ge).
    pose proof (slice_concat _ (member_index m) (encode_uint e (sizeof t) x)
                  ltac:(by apply list_lookup_insert_eq)) as Hsl.
    rewrite length_encode_uint, Hb in Hsl. rewrite Hsl.
    unfold x, wrap. by rewrite Hw.
  - intros j Hj. eapply concat_insert_outside; [exact Hk| |].
    + by rewrite !length_encode_uint.
    + by rewrite length_encode_uint.
Qed.

Example assign_object_bytes_witness :
  slice 4 2 (object_bytes LittleEndian 3 0 (assign MFlowID 65543 (default_init MagicObol)))
  = [7; 0].
Proof.
  destruct (assign_object_bytes LittleEndian 3 0 MFlowID 65543 (default_init MagicObol)
              TUInt16 4 eq_refl ltac:(apply list_elem_of_In; simpl; tauto) eq_refl)
    as (_ & Hs & _).
  cbn [sizeof] in Hs. rewrite Hs. reflexivity.
Defined.


(** C8: for every pack value and every content of padding bytes, the
    object representation of a well-typed header is its members' bytes
    laid end to end in declaration order, 64 bytes in all: the struct in
    memory is the RFC wire image. *)
Theorem object_bytes_wire e p pad h :
  header_wf h = true ->
  object_bytes e p pad h = concat (member_bytes e h)
  /\ length (object_bytes e p pad h) = rfc_size.
Proof.
  intros Hwf. split; [by apply object_bytes_eq|by apply length_object_bytes].
Qed.

Example object_bytes_wire_witness :
  header_wf (default_init MagicObol) = true
  /\ length (object_bytes LittleEndian 3 0 (default_init MagicObol)) = 64%nat.
Proof.
  split; [reflexivity|].
  apply (object_bytes_wire LittleEndian 3 0 (default_init MagicObol)). reflexivity.
Defined.

(** C9: reading back the bytes of a well-typed header object, whatever
    the packing and padding, gives the same header. *)
Theorem object_roundtrip e p pad h :
  header_wf h = true -> of_object_bytes e (object_bytes e p pad h) = Some h.
Proof. apply of_object_bytes_object_bytes. Qed.

Example object_roundtrip_witness :
  header_wf (default_init MagicObol) = true
  /\ of_object_bytes BigEndian (object_bytes BigEndian 0 255 (default_init MagicObol))
     = Some (default_init MagicObol).
Proof. split; [reflexivity|]. apply object_roundtrip. reflexivity. Defined.

Lemma encode_decode_uint_len e n bs :
  length bs = n -> bytes_ok bs = true -> encode_uint e n (decode_uint e bs) = bs.
Proof. intros <-. apply encode_decode_uint. Qed.

Lemma decode_uint_fits_len e bs n w :
  length bs = n -> bytes_ok bs = true -> w = 8 * Z.of_nat n ->
  decode_uint e bs fits_in w.
Proof. intros <- Hok ->. by apply decode_uint_fits. Qed.

(** Twelve byte strings of the member sizes decode to a well-typed
    header whose member bytes are those strings. *)
Lemma header_of_slices_sizes e sl :
  map length sl = map (fun m => sizeof (mtype m)) FTetherHeader_members ->
  forallb bytes_ok sl = true ->
  exists h, header_of_slices e sl = Some h /\ header_wf h = true
            /\ member_bytes e h = sl.
Proof.
  intros Hl Hok.
  destruct sl as [|mg [|fl [|fs [|rs [|sd [|tg [|ns [|tk [|ga [|nk [|cs [|sc [|? ?]]]]]]]]]]]]];
    simpl in Hl; try discriminate.
  injection Hl as L1 L2 L3 L4 L5 L6 L7 L8 L9 L10 L11 L12.
  simpl in Hok. rewrite !andb_true_iff in Hok. destruct_and!.
  eexists; split; [reflexivity|]. split.
  - unfold header_wf, id_ok. simpl.
    rewrite !andb_true_iff. split_and!;
      first [ eapply decode_uint_fits_len; [eassumption|done|reflexivity]
            | rewrite ?L5, ?L6; done ].
  - unfold member_bytes. simpl. by rewrite !encode_decode_uint_len by done.
Qed.

(** A buffer that reads as a header is that header's object. *)
Lemma of_object_bytes_spec e bs h :
  of_object_bytes e bs = Some h ->
  header_wf h = true /\ forall p pad, object_bytes e p pad h = bs.
Proof.
  intros Hh. destruct (of_object_bytes_fields e bs h Hh) as (Hlen & Hok & _).
  revert Hh. unfold of_object_bytes.
  rewrite FTetherHeader_struct_size, Hlen, Nat.eqb_refl, Hok. cbn [andb].
  assert (Htot : length bs = total_size FTetherHeader_members) by (rewrite Hlen; done).
  pose proof (member_slices_lengths pragma_pack_log _ bs []
                FTetherHeader_naturally_aligned Htot) as Hl.
  pose proof (concat_member_slices pragma_pack_log _ bs []
                FTetherHeader_naturally_aligned Htot) as Hc.
  rewrite app_nil_l in Hl, Hc. change (length []) with 0%nat in Hl, Hc.
  rewrite <- Hc, bytes_ok_concat in Hok.
  destruct (header_of_slices_sizes e _ Hl Hok) as (h' & Hh' & Hwf & Hm).
  rewrite Hh'. intros [= <-]. split; [done|]. intros p pad.
  by rewrite object_bytes_eq, Hm.
Qed.

(** C10: every 64-byte buffer is the object representation, under every
    pack value and padding content, of one well-typed header and of no
    other (there are no padding bytes and no trap representations to
    exclude it); a buffer of any other length is refused. *)
Theorem object_bytes_onto e bs :
  ((length bs = rfc_size)%nat -> bytes_ok bs = true ->
   exists h, of_object_bytes e bs = Some h /\ header_wf h = true
             /\ (forall p pad, object_bytes e p pad h = bs)
             /\ (forall h' p pad, header_wf h' = true ->
                   object_bytes e p pad h' = bs -> h' = h))
  /\ ((length bs <> rfc_size)%nat -> of_object_bytes e bs = None).
Proof.
  split; [|apply of_object_bytes_none].
  intros Hlen Hok. destruct (of_object_bytes_some e bs Hlen Hok) as [h Hh].
  destruct (of_object_bytes_spec e bs h Hh) as [Hwf Hobj].
  exists h. split_and!; [done|done|done|].
  intros h' p pad Hwf' Hb.
  pose proof (of_object_bytes_object_bytes e p pad h' Hwf') as Hh'.
  rewrite Hb, Hh in Hh'. by injection Hh'.
Qed.

Example object_bytes_onto_witness :
  exists h, of_object_bytes LittleEndian (seqZ 0 64) = Some h
            /\ Magic h = 0x03020100.
Proof.
  destruct (proj1 (object_bytes_onto LittleEndian (seqZ 0 64)) eq_refl eq_refl)
    as (h & Hh & _).
  exists h. split; [exact Hh|]. vm_compute in Hh. by injection Hh as <-.
Defined.

(** C11: the first four bytes of a header carrying the protocol magic
    are [4C 4F 42 4F] ("LOBO") on a little-endian machine and
    [4F 42 4F 4C] ("OBOL") on a big-endian one. *)
Theorem magic_bytes p pad h :
  header_wf h = true -> has_valid_magic h = true ->
  slice 0 4 (object_bytes LittleEndian p pad h) = [0x4C; 0x4F; 0x42; 0x4F]
  /\ slice 0 4 (object_bytes BigEndian p pad h) = [0x4F; 0x42; 0x4F; 0x4C].
Proof.
  intros Hwf Hm. apply Z.eqb_eq in Hm.
  assert (Hfirst : forall e, slice 0 4 (object_bytes e p pad h) = encode_uint e 4 MagicObol).
  { intros e. rewrite object_bytes_eq by done. unfold member_bytes. simpl concat.
    rewrite Hm, <- (length_encode_uint e 4 MagicObol) at 1.
    apply (slice_app_mid []). }
  rewrite !Hfirst. split; reflexivity.
Qed.

Example magic_bytes_witness :
  header_wf (default_init MagicObol) = true
  /\ has_valid_magic (default_init MagicObol) = true
  /\ slice 0 4 (object_bytes LittleEndian 3 0 (default_init MagicObol))
     = [0x4C; 0x4F; 0x42; 0x4F].
Proof.
  split_and!; [reflexivity|reflexivity|].
  apply (magic_bytes 3 0 (default_init MagicObol)); reflexivity.
Defined.

End ObjectRep.
