(* ===== verification/Codec.v ===== *)
(** * Codec: the header codec of RFC 0001 section 4.1

    The repository ships only the struct; the codec that turns a header
    into its 64 wire bytes and back, with its typed errors, is specified
    in the RFC (spec sections 4.1, 7 and 8) and modelled here from those
    words, on top of the code's object representation
    ([ObjectRep.object_bytes], [ObjectRep.of_object_bytes]).

    - [Integrity] is the pluggable checksum of the spec: any function of
      the header minus its [Checksum] member (bytes 0-47 and 56-63) to a
      64-bit value.  [DetectsFlips] is the law a checksum must satisfy
      for the spec's checksum-sensitivity property: it changes when one
      bit of its input changes.  [XorFold] is one instance of both.
    - [encode] refuses a header whose [Reserved] byte is not zero or whose
      [Tai64Nano] is not below 10^9 ([InvalidField]), fills in the
      checksum and returns the object bytes.
    - [decode] refuses a buffer that is not 64 bytes ([TruncatedHeader]),
      then checks the magic ([BadMagic]), the checksum
      ([ChecksumMismatch]) and the nanoseconds ([InvalidTimestamp]), in
      that order, and returns the header only when every check passes.

    The byte order is a parameter of the [Section]: the spec recommends
    big-endian, the code's [memcpy] image is the machine's own. *)

From S2P Require Import Prelude Layout Header ObjectRep.

Module Codec.
Import CLayout TetherLayout TetherConstants Header ObjectRep.

Inductive DecodeError := TruncatedHeader | BadMagic | ChecksumMismatch | InvalidTimestamp.
Inductive EncodeError := InvalidField.

#[export] Instance DecodeError_eq_dec : EqDecision DecodeError.
Proof. solve_decision. Defined.

Inductive result (A E : Type) := Ok (a : A) | Err (err : E).
Arguments Ok {A E} a.
Arguments Err {A E} err.

(** [check b err k]: continue with [k] when [b] holds, fail with [err]. *)
Definition check {A E} (b : bool) (err : E) (k : result A E) : result A E :=
  if b then k else Err err.

Class Integrity := {
  checksum : list Z -> Z;
  checksum_fits : forall bs, checksum bs fits_in 64
}.

Class DetectsFlips `{Integrity} :=
  detects_flip : forall bs i k, (i < length bs)%nat -> 0 <= k < 8 ->
    checksum (flip_bit i k bs) <> checksum bs.

(** The largest valid TAI64N nanosecond count. *)
Definition max_nano : Z := 999999999.

(** The header minus its [Checksum] member: bytes 0-47 and 56-63. *)
Definition integrity_region (bs : list Z) : list Z := take 48 bs ++ drop 56 bs.

Section WithOrder.
Context `{Integrity} (e : endian).

(** The wire image: the object bytes (there is no padding, so the padding
    value is immaterial). *)
Definition image (h : FTetherHeader) : list Z := object_bytes e pragma_pack_log 0 h.

(** The header with its checksum filled in. *)
Definition seal (h : FTetherHeader) : FTetherHeader :=
  put MChecksum (checksum (integrity_region (image h))) h.

Definition encode (h : FTetherHeader) : result (list Z) EncodeError :=
  check ((Reserved h =? 0) && (Tai64Nano h <=? max_nano)) InvalidField
    (Ok (image (seal h))).

(** A list holding a value that is not a byte is not a byte buffer; it is
    refused like a short read. *)
Definition decode (bs : list Z) : result FTetherHeader DecodeError :=
  match of_object_bytes e bs with
  | None => Err TruncatedHeader
  | Some h =>
      check (has_valid_magic h) BadMagic
        (check (checksum (integrity_region bs) =? Checksum h) ChecksumMismatch
          (check (Tai64Nano h <=? max_nano) InvalidTimestamp (Ok h)))
  end.

(** ** Lemmas *)

Lemma region_split (a c d : list Z) :
  length a = 48%nat -> length c = 8%nat -> integrity_region (a ++ c ++ d) = a ++ d.
Proof.
  intros Ha Hc. unfold integrity_region.
  rewrite take_app_length' by done. f_equal.
  replace (a ++ c ++ d) with ((a ++ c) ++ d) by (symmetry; apply List.app_assoc).
  apply drop_app_length'. rewrite length_app. lia.
Qed.

Lemma region_image h :
  header_wf h = true ->
  integrity_region (image h)
  = concat (take 10 (member_bytes e h)) ++ encode_uint e 8 (Tai64Sec h).
Proof.
  intros Hwf. unfold image. rewrite object_bytes_eq, member_bytes_split by done.
  apply region_split; [by apply length_member_bytes_prefix|apply length_encode_uint].
Qed.

Lemma seal_wf h : header_wf h = true -> header_wf (seal h) = true.
Proof. intros Hwf. apply put_wf; [done|apply checksum_fits]. Qed.

(** Sealing does not change the bytes the checksum covers. *)
Lemma region_seal h :
  header_wf h = true -> integrity_region (image (seal h)) = integrity_region (image h).
Proof.
  intros Hwf. rewrite !region_image by auto using seal_wf. by destruct h.
Qed.

Lemma seal_checksum h :
  header_wf h = true -> Checksum (seal h) = checksum (integrity_region (image (seal h))).
Proof. intros Hwf. rewrite region_seal by done. by destruct h. Qed.

Lemma seal_fields h :
  Magic (seal h) = Magic h /\ Reserved (seal h) = Reserved h
  /\ Tai64Nano (seal h) = Tai64Nano h.
Proof. by destruct h. Qed.

Lemma length_image h : header_wf h = true -> length (image h) = rfc_size.
Proof. apply length_object_bytes. Qed.

Lemma image_ok h : header_wf h = true -> bytes_ok (image h) = true.
Proof. intros Hwf. unfold image. rewrite object_bytes_eq by done. by apply member_bytes_ok. Qed.

Lemma decode_image h :
  header_wf h = true ->
  decode (image h)
  = check (has_valid_magic h) BadMagic
      (check (checksum (integrity_region (image h)) =? Checksum h) ChecksumMismatch
        (check (Tai64Nano h <=? max_nano) InvalidTimestamp (Ok h))).
Proof. intros Hwf. unfold decode, image. by rewrite of_object_bytes_object_bytes. Qed.

(** The magic check of a buffer is a check of its first four bytes. *)
Lemma magic_field bs h :
  of_object_bytes e bs = Some h ->
  has_valid_magic h = true <-> slice 0 4 bs = encode_uint e 4 MagicObol.
Proof.
  intros Hh. destruct (of_object_bytes_fields e bs h Hh) as (Hlen & Hok & Hm & _).
  unfold has_valid_magic. rewrite Z.eqb_eq, Hm. split.
  - intros <-. symmetry. apply encode_decode_uint_len; [|by apply slice_ok].
    apply length_slice. rewrite Hlen. unfold rfc_size. lia.
  - intros ->. by rewrite decode_encode_uint.
Qed.

Lemma length_region bs : length bs = rfc_size -> length (integrity_region bs) = 56%nat.
Proof.
  intros Hlen. unfold integrity_region. rewrite length_app, length_take, length_drop, Hlen.
  done.
Qed.

(** A flip in the covered bytes is a flip of the covered region. *)
Lemma region_flip bs i k :
  length bs = rfc_size -> (i < 48 \/ 56 <= i < 64)%nat ->
  exists j, (j < 56)%nat
            /\ integrity_region (flip_bit i k bs) = flip_bit j k (integrity_region bs).
Proof.
  intros Hlen Hi. unfold integrity_region, flip_bit.
  assert (Ht : length (take 48 bs) = 48%nat) by (rewrite length_take, Hlen; done).
  destruct Hi as [Hi|Hi].
  - exists i. split; [lia|].
    rewrite take_alter_lt, drop_alter_lt, alter_app_l by lia. done.
  - exists (i - 8)%nat. split; [lia|].
    rewrite take_alter_ge, drop_alter_ge, alter_app_r_alt by lia.
    by replace (i - 8 - length (take 48 bs))%nat with (i - 56)%nat by lia.
Qed.

(** ** Properties *)

(** C12: a well-typed header with the protocol magic, a zero [Reserved]
    byte and a nanosecond count below 10^9 encodes, with its checksum
    filled in, to bytes that decode to that sealed header; a header whose
    checksum is already right comes back unchanged. *)
Theorem codec_roundtrip h :
  header_wf h = true -> has_valid_magic h = true -> Reserved h = 0 ->
  Tai64Nano h <= max_nano ->
  encode h = Ok (image (seal h))
  /\ decode (image (seal h)) = Ok (seal h)
  /\ (Checksum h = checksum (integrity_region (image h)) -> seal h = h).
Proof.
  intros Hwf Hmag Hres Hnano. destruct (seal_fields h) as (Hm & _ & Hn).
  split_and!.
  - unfold encode, check. by rewrite Hres, (proj2 (Z.leb_le _ _) Hnano).
  - rewrite decode_image by (by apply seal_wf). unfold check, has_valid_magic in *.
    rewrite Hm, Hmag, <- seal_checksum, Z.eqb_refl, Hn by done.
    by rewrite (proj2 (Z.leb_le _ _) Hnano).
  - intros Hc. unfold seal. rewrite <- Hc. apply (put_get MChecksum).
Qed.

(** C13: a buffer that is not exactly 64 bytes long is refused as a
    truncated header. *)
Theorem decode_truncated bs :
  length bs <> rfc_size -> decode bs = Err TruncatedHeader.
Proof. intros Hlen. unfold decode. by rewrite of_object_bytes_none. Qed.

(** C14: a 64-byte buffer is refused as not a Tether header exactly when
    its first four bytes are not the image of [MagicObol], whatever the
    other 60 bytes hold. *)
Theorem decode_bad_magic bs :
  decode bs = Err BadMagic
  <-> length bs = rfc_size /\ bytes_ok bs = true
      /\ slice 0 4 bs <> encode_uint e 4 MagicObol.
Proof.
  unfold decode. split.
  - destruct (of_object_bytes e bs) as [h|] eqn:Hh; [|done].
    destruct (of_object_bytes_fields e bs h Hh) as (Hlen & Hok & _).
    unfold check. destruct (has_valid_magic h) eqn:Hm; [by repeat case_match|].
    intros _. split_and!; [done|done|]. intros Hs%(magic_field bs h Hh). congruence.
  - intros (Hlen & Hok & Hs). destruct (of_object_bytes_some e bs Hlen Hok) as [h Hh].
    rewrite Hh. unfold check. destruct (has_valid_magic h) eqn:Hm; [|done].
    by apply (magic_field bs h Hh) in Hm.
Qed.

(** What the sealed image of a header with the magic looks like. *)
Lemma sealed_image h :
  header_wf h = true -> has_valid_magic h = true ->
  length (image (seal h)) = rfc_size /\ bytes_ok (image (seal h)) = true
  /\ slice 0 4 (image (seal h)) = encode_uint e 4 MagicObol
  /\ decode_uint e (slice 48 8 (image (seal h)))
     = checksum (integrity_region (image (seal h))).
Proof.
  intros Hwf Hmag. pose proof (seal_wf h Hwf) as Hs.
  pose proof (of_object_bytes_object_bytes e pragma_pack_log 0 (seal h) Hs) as Hh.
  destruct (of_object_bytes_fields e _ _ Hh) as (Hlen & Hok & _ & _ & Hc).
  split_and!; [done|done| |].
  - apply (magic_field _ (seal h) Hh). unfold has_valid_magic in *.
    by rewrite (proj1 (seal_fields h)).
  - rewrite <- seal_checksum by done. unfold image. by rewrite <- Hc.
Qed.

(** C15: with a checksum that notices any single-bit change, flipping one
    bit of a sealed header's bytes 4-47 or 56-63 (outside the magic and
    the stored checksum) makes decoding report a checksum mismatch. *)
Theorem decode_detects_flip `{!DetectsFlips} h i k :
  header_wf h = true -> has_valid_magic h = true -> 0 <= k < 8 ->
  (4 <= i < 48 \/ 56 <= i < 64)%nat ->
  decode (flip_bit i k (image (seal h))) = Err ChecksumMismatch.
Proof.
  intros Hwf Hmag Hk Hi.
  destruct (sealed_image h Hwf Hmag) as (Hlen & Hok & Hmb & Hcs).
  set (bs := image (seal h)) in *.
  assert (Hlen' : length (flip_bit i k bs) = rfc_size) by by rewrite length_flip_bit.
  destruct (of_object_bytes_some e _ Hlen' (flip_bit_ok i k bs Hk Hok)) as [h' Hh'].
  destruct (of_object_bytes_fields e _ _ Hh') as (_ & _ & _ & _ & Hc').
  unfold decode. rewrite Hh'. unfold check.
  rewrite (proj2 (magic_field _ h' Hh')) by (rewrite slice_flip_outside by lia; done).
  rewrite Hc', slice_flip_outside, Hcs by lia.
  destruct (region_flip bs i k Hlen ltac:(lia)) as (j & Hj & ->).
  destruct (Z.eqb_spec (checksum (flip_bit j k (integrity_region bs)))
                       (checksum (integrity_region bs))) as [Heq|]; [|done].
  exfalso. revert Heq. apply detects_flip; [by rewrite length_region|done].
Qed.

(** C16: a sealed header with the magic decodes to itself when its
    nanosecond count is at most 999,999,999 and is refused as an invalid
    timestamp when it is larger. *)
Theorem decode_timestamp h :
  header_wf h = true -> has_valid_magic h = true ->
  decode (image (seal h))
  = if Tai64Nano h <=? max_nano then Ok (seal h) else Err InvalidTimestamp.
Proof.
  intros Hwf Hmag. destruct (seal_fields h) as (Hm & _ & Hn).
  rewrite decode_image by (by apply seal_wf). unfold check, has_valid_magic in *.
  by rewrite Hm, Hmag, <- seal_checksum, Z.eqb_refl, Hn by done.
Qed.

(** C17: encoding fails, with [InvalidField], exactly when the
    [Reserved] byte is not zero or the nanosecond count exceeds
    999,999,999. *)
Theorem encode_invalid h :
  encode h = Err InvalidField <-> Reserved h <> 0 \/ max_nano < Tai64Nano h.
Proof.
  unfold encode, check.
  destruct (Z.eqb_spec (Reserved h) 0), (Z.leb_spec (Tai64Nano h) max_nano);
    simpl; split; (done || lia).
Qed.

(** C18: decoding is all or nothing: a buffer it accepts is 64 bytes, is
    exactly the image of the header it returns, and that header is
    well-typed, carries the magic, a valid timestamp and the checksum of
    the buffer. *)
Theorem decode_sound bs h :
  decode bs = Ok h ->
  length bs = rfc_size /\ header_wf h = true /\ has_valid_magic h = true
  /\ Tai64Nano h <= max_nano
  /\ Checksum h = checksum (integrity_region bs) /\ image h = bs.
Proof.
  unfold decode, check. destruct (of_object_bytes e bs) as [h'|] eqn:Hh; [|done].
  destruct (has_valid_magic h') eqn:Hm; [|done].
  destruct (Z.eqb_spec (checksum (integrity_region bs)) (Checksum h')) as [Hc|]; [|done].
  destruct (Z.leb_spec (Tai64Nano h') max_nano) as [Hn|]; [|done].
  intros [= <-].
  destruct (of_object_bytes_fields e bs h' Hh) as (Hlen & _).
  destruct (of_object_bytes_spec e bs h' Hh) as (Hwf & Himg).
  split_and!; try done. apply Himg.
Qed.

End WithOrder.

(** ** An integrity function: the XOR of the covered bytes *)

Definition xor_fold (bs : list Z) : Z := wrap 64 (fold_left Z.lxor bs 0).

Lemma fold_lxor_acc l a m :
  fold_left Z.lxor l (Z.lxor a m) = Z.lxor (fold_left Z.lxor l a) m.
Proof.
  revert a. induction l as [|x l IH]; intros a; simpl; [done|].
  rewrite <- IH. f_equal. rewrite !Z.lxor_assoc. f_equal. apply Z.lxor_comm.
Qed.

Lemma fold_lxor_alter l i a m :
  (i < length l)%nat ->
  fold_left Z.lxor (alter (fun b => Z.lxor b m) i l) a = Z.lxor (fold_left Z.lxor l a) m.
Proof.
  revert i a. induction l as [|x l IH]; intros [|i] a Hi; simpl in *; try lia.
  - by rewrite <- Z.lxor_assoc, fold_lxor_acc.
  - apply IH. lia.
Qed.

#[export] Instance XorFold : Integrity.
Proof. refine {| checksum := xor_fold |}. intros bs. apply wrap_fits. lia. Defined.

#[export] Instance XorFold_detects : @DetectsFlips XorFold.
Proof.
  intros bs i k Hi Hk. simpl. unfold xor_fold, flip_bit.
  rewrite fold_lxor_alter by done. intros Heq.
  apply (f_equal (fun z => Z.testbit z k)) in Heq. unfold wrap in Heq.
  rewrite !Z.mod_pow2_bits_low, Z.lxor_spec, Z.pow2_bits_true in Heq by lia.
  by destruct (Z.testbit _ k).
Qed.

(** ** The example of the spec (section 8) *)

Definition example_header : FTetherHeader :=
  {| Magic := MagicObol; FlowID := 7; Flags := FlagLamp; Reserved := 0;
     SenderID := [1; 2; 3; 4; 5; 6]; TargetID := [9; 8; 7; 6; 5; 4];
     Tai64Nano := 123456789; TokenID := 42; GrantAmount := 1000; NackToken := 0;
     Checksum := 0; Tai64Sec := 1700000000 |}.

(** ** Witnesses *)

Lemma codec_roundtrip_witness :
  decode LittleEndian (image LittleEndian (seal LittleEndian example_header))
  = Ok (seal LittleEndian example_header).
Proof.
  apply (codec_roundtrip LittleEndian example_header); vm_compute; (reflexivity || discriminate).
Defined.

Lemma decode_truncated_witness :
  decode BigEndian (repeat 0 63) = Err TruncatedHeader
  /\ decode BigEndian (repeat 0 65) = Err TruncatedHeader.
Proof.
  split; apply decode_truncated; vm_compute; discriminate.
Defined.

Lemma decode_bad_magic_witness : decode BigEndian (repeat 0 64) = Err BadMagic.
Proof.
  apply (proj2 (decode_bad_magic BigEndian (repeat 0 64))).
  split_and!; [reflexivity|reflexivity|vm_compute; discriminate].
Defined.

Lemma decode_detects_flip_witness :
  decode BigEndian (flip_bit 10 3 (image BigEndian (seal BigEndian example_header)))
  = Err ChecksumMismatch.
Proof.
  apply (decode_detects_flip BigEndian example_header 10 3);
    [reflexivity|reflexivity|lia|lia].
Defined.

Lemma decode_timestamp_witness :
  decode BigEndian (image BigEndian (seal BigEndian
    (put MTai64Nano 1000000000 example_header))) = Err InvalidTimestamp
  /\ decode BigEndian (image BigEndian (seal BigEndian
    (put MTai64Nano 999999999 example_header)))
     = Ok (seal BigEndian (put MTai64Nano 999999999 example_header)).
Proof.
  split; rewrite decode_timestamp by reflexivity; reflexivity.
Defined.

Lemma encode_invalid_witness :
  encode BigEndian (put MReserved 1 example_header) = Err InvalidField.
Proof. apply encode_invalid. left. simpl. lia. Defined.

Lemma decode_sound_witness :
  has_valid_magic (seal BigEndian example_header) = true
  /\ Checksum (seal BigEndian example_header)
     = checksum (integrity_region (image BigEndian (seal BigEndian example_header))).
Proof.
  assert (Hd : decode BigEndian (image BigEndian (seal BigEndian example_header))
               = Ok (seal BigEndian example_header)) by (vm_compute; reflexivity).
  destruct (decode_sound BigEndian _ _ Hd) as (_ & _ & Hm & _ & Hc & _).
  split; [exact Hm|exact Hc].
Defined.

End Codec.
